(** * To-do list app: the task-list state machine of [src/app/index.tsx]

    The component [App] keeps six pieces of React state ([task],
    [priority], [category], [tasks], [editingIndex], [isDarkMode]) and
    changes them from four event handlers: [addTask], [deleteTask],
    [toggleTaskCompletion] and [editTask].  Each handler is embedded below
    as a function on an explicit [State] record; a handler that can raise a
    JavaScript [TypeError] returns an [outcome].

    JavaScript values are modelled as the handlers can produce them at run
    time, which is wider than the TypeScript annotation of [tasks]:
    an array index may be a hole or hold [undefined], and an object built by
    [{ ...undefined, task, priority, category }] has no [completed] and no
    [id] property.  A handler's [index] argument is an integer ([Z]): the
    rendered rows pass their row number, and the handlers themselves accept
    any, negative ones included.  [Date.now()] is an input of [addTask]. *)

From Stdlib Require Import ZArith NArith String Ascii DecimalString DecimalZ.
From stdpp Require Import base list.

Local Open Scope Z_scope.

(** ** Strings *)

(** A JavaScript string is a sequence of UTF-16 code units. *)
Definition jsstring : Type := list N.

(** A source literal, all of whose characters are ASCII. *)
Definition lit (s : string) : jsstring :=
  N_of_ascii <$> list_ascii_of_string s.

(** The code points [String.prototype.trim] strips: ECMAScript's WhiteSpace
    (TAB, VT, FF, SP, NBSP, ZWNBSP and the category Zs) and LineTerminator
    (LF, CR, LS, PS).  All of them are single code units. *)
Definition isWhiteSpace (c : N) : bool :=
  ((c =? 0x9) || (c =? 0xA) || (c =? 0xB) || (c =? 0xC) || (c =? 0xD)
   || (c =? 0x20) || (c =? 0xA0) || (c =? 0x1680)
   || ((0x2000 <=? c) && (c <=? 0x200A))
   || (c =? 0x2028) || (c =? 0x2029) || (c =? 0x202F) || (c =? 0x205F)
   || (c =? 0x3000) || (c =? 0xFEFF))%N.

Fixpoint trimStart (s : jsstring) : jsstring :=
  match s with
  | [] => []
  | c :: s' => if isWhiteSpace c then trimStart s' else s
  end.

Definition trimEnd (s : jsstring) : jsstring :=
  reverse (trimStart (reverse s)).

(** [s.trim()] *)
Definition trim (s : jsstring) : jsstring := trimEnd (trimStart s).

(** ToBoolean on a string, as [if (task.trim())] applies it: only the empty
    string is falsy. *)
Definition truthy (s : jsstring) : bool :=
  match s with
  | [] => false
  | _ :: _ => true
  end.

(** [n.toString()] for an integral number below 10^21, which every value of
    [Date.now()] is: the decimal digits, with a minus sign when negative. *)
Definition toString (n : Z) : jsstring :=
  lit (NilZero.string_of_int (Z.to_int n)).

(** ** Tasks and arrays *)

Module Item.
(** An element of [tasks].  [completed] and [id] are [None] when the
    object has no such property (reading it gives [undefined]). *)
Record t : Type := mk {
  task : jsstring;
  priority : jsstring;
  category : jsstring;
  completed : option bool;
  id : option jsstring
}.
End Item.

(** One index of a JavaScript array below its length. *)
Inductive slot : Type :=
  | Hole
  | Undefined
  | Obj (o : Item.t).

#[global] Instance slot_inhabited : Inhabited slot := populate Undefined.


Definition not_hole (x : slot) : Prop :=
  match x with Hole => False | _ => True end.

(** [a[index]]: the object there, or [None] for [undefined] (a hole, a
    stored [undefined], an index outside the array or a negative one). *)
Definition get (a : list slot) (index : Z) : option Item.t :=
  if index <? 0 then None
  else match a !! Z.to_nat index with
       | Some (Obj o) => Some o
       | _ => None
       end.

(** [[...a]]: the array iterator yields [undefined] at a hole. *)
Definition spread (a : list slot) : list slot :=
  (λ x, match x with Hole => Undefined | _ => x end) <$> a.

(** [a[k] = v] for a natural index: in range it overwrites; at or beyond
    the length the array grows, leaving holes below [k]. *)
Definition assign (a : list slot) (k : nat) (v : slot) : list slot :=
  if decide (k < length a)%nat then <[k := v]> a
  else a ++ replicate (k - length a)%nat Hole ++ [v].

(** [{ ...v, task, priority, category }]: spreading [undefined] copies
    nothing. *)
Definition overwrite (v : option Item.t) (task priority category : jsstring)
  : Item.t :=
  match v with
  | Some o => Item.mk task priority category (Item.completed o) (Item.id o)
  | None => Item.mk task priority category None None
  end.

(** [a.filter(cb)]: [cb] is called with the element and its index in [a];
    holes are skipped without a call, so the result is dense.  [i] is the
    index of the head of [a]. *)
Fixpoint filter_from (cb : slot → Z → bool) (i : Z) (a : list slot)
  : list slot :=
  match a with
  | [] => []
  | Hole :: a' => filter_from cb (i + 1) a'
  | x :: a' =>
      if cb x i then x :: filter_from cb (i + 1) a'
      else filter_from cb (i + 1) a'
  end.

Definition array_filter (cb : slot → Z → bool) (a : list slot)
  : list slot :=
  filter_from cb 0 a.

(** [!o.completed]: a missing property reads [undefined], which is falsy. *)
Definition not_completed (o : Item.t) : bool :=
  match Item.completed o with
  | Some b => negb b
  | None => true
  end.

(** The object [o] after [o.completed = !o.completed]. *)
Definition flipped (o : Item.t) : Item.t :=
  Item.mk (Item.task o) (Item.priority o) (Item.category o)
          (Some (not_completed o)) (Item.id o).

(** ** Component state *)

(** [editingIndex] is only ever assigned [null] or the argument of
    [editTask], and [editTask] reads [tasks[index].task] first, which raises
    unless [index] is an index of the array; so it is an [option nat]. *)
Record State : Type := mkState {
  task : jsstring;
  priority : jsstring;
  category : jsstring;
  tasks : list slot;
  editingIndex : option nat;
  isDarkMode : bool
}.

Definition init : State :=
  mkState (lit "") (lit "Medium") (lit "Work") [] None false.

Inductive outcome : Type :=
  | Done (s : State)
  | TypeError.

(** ** Handlers *)

(** The object literal
    [{ task, priority, category, completed: false,
       id: Date.now().toString() }]. *)
Definition created (now : Z) (s : State) : Item.t :=
  Item.mk (task s) (priority s) (category s)
          (Some false) (Some (toString now)).

(** [addTask], with [now] the value [Date.now()] returns if it is called. *)
Definition addTask (now : Z) (s : State) : State :=
  if truthy (trim (task s)) then
    match editingIndex s with
    | Some k =>
        let updatedTasks := spread (tasks s) in
        let updatedTasks :=
          assign updatedTasks k
            (Obj (overwrite (get updatedTasks (Z.of_nat k))
                    (task s) (priority s) (category s))) in
        mkState (lit "") (lit "Medium") (lit "Work")
                updatedTasks None (isDarkMode s)
    | None =>
        mkState (lit "") (lit "Medium") (lit "Work")
                (spread (tasks s) ++ [Obj (created now s)])
                None (isDarkMode s)
    end
  else s.

(** The callback [(_, i) => i !== index]. *)
Definition keep (index : Z) : slot → Z → bool :=
  λ _ i, negb (i =? index).

(** [deleteTask] only calls [setTasks]. *)
Definition deleteTask (index : Z) (s : State) : State :=
  let updatedTasks := array_filter (keep index) (tasks s) in
  mkState (task s) (priority s) (category s)
          updatedTasks (editingIndex s) (isDarkMode s).

(** The assignment [updatedTasks[index].completed = ...] mutates the object
    that the copied array shares with [tasks]; no object occurs at two
    indices, so the new array differs from the copy at [index] only. *)
Definition toggleTaskCompletion (index : Z) (s : State) : outcome :=
  let updatedTasks := spread (tasks s) in
  match get updatedTasks index with
  | Some o =>
      Done (mkState (task s) (priority s) (category s)
                    (<[Z.to_nat index := Obj (flipped o)]> updatedTasks)
                    (editingIndex s) (isDarkMode s))
  | None => TypeError
  end.

(** [editTask] reads [tasks[index].task] first, which raises when
    [tasks[index]] is [undefined], before any setter is called. *)
Definition editTask (index : Z) (s : State) : outcome :=
  match get (tasks s) index with
  | Some o =>
      Done (mkState (Item.task o) (Item.priority o) (Item.category o)
                    (tasks s) (Some (Z.to_nat index)) (isDarkMode s))
  | None => TypeError
  end.

(** ** User events *)

Inductive Priority : Type := High | Medium | Low.
Inductive Category : Type := Work | Personal | Shopping | Other.

Definition priority_value (p : Priority) : jsstring :=
  match p with
  | High => lit "High"
  | Medium => lit "Medium"
  | Low => lit "Low"
  end.

Definition category_value (c : Category) : jsstring :=
  match c with
  | Work => lit "Work"
  | Personal => lit "Personal"
  | Shopping => lit "Shopping"
  | Other => lit "Other"
  end.

(** What the rendered tree can call: the text input, the two pickers, the
    add/update button (with the clock reading of that moment), the per-row
    checkbox, edit and delete controls, and the theme button. *)
Inductive event : Type :=
  | ChangeText (text : jsstring)
  | PickPriority (p : Priority)
  | PickCategory (c : Category)
  | PressAdd (now : Z)
  | PressDelete (index : Z)
  | PressCheckbox (index : Z)
  | PressEdit (index : Z)
  | PressTheme.

Definition step (s : State) (e : event) : outcome :=
  match e with
  | ChangeText text =>
      Done (mkState text (priority s) (category s)
                    (tasks s) (editingIndex s) (isDarkMode s))
  | PickPriority p =>
      Done (mkState (task s) (priority_value p) (category s)
                    (tasks s) (editingIndex s) (isDarkMode s))
  | PickCategory c =>
      Done (mkState (task s) (priority s) (category_value c)
                    (tasks s) (editingIndex s) (isDarkMode s))
  | PressAdd now => Done (addTask now s)
  | PressDelete index => Done (deleteTask index s)
  | PressCheckbox index => toggleTaskCompletion index s
  | PressEdit index => editTask index s
  | PressTheme =>
      Done (mkState (task s) (priority s) (category s)
                    (tasks s) (editingIndex s) (negb (isDarkMode s)))
  end.

(** A run stops at the first handler that raises. *)
Fixpoint run (s : State) (es : list event) : outcome :=
  match es with
  | [] => Done s
  | e :: es' =>
      match step s e with
      | Done s' => run s' es'
      | TypeError => TypeError
      end
  end.

Definition reachable (s : State) : Prop :=
  ∃ es, run init es = Done s.

(** ** Blank input *)

Definition blank (s : jsstring) : Prop :=
  Forall (λ c, isWhiteSpace c = true) s.

(** ** Notions used in the statements *)

(** [y] is the task [x] after one handler has written to it: still an
    object with the [id] of [x], and either [completed] is as it was (an
    update of text, priority and category) or text, priority and category
    are as they were (a toggle of [completed]). *)
Definition touched (x y : slot) : Prop :=
  match x, y with
  | Obj o, Obj o' =>
      Item.id o' = Item.id o
      ∧ (Item.completed o' = Item.completed o
         ∨ (Item.task o' = Item.task o
            ∧ Item.priority o' = Item.priority o
            ∧ Item.category o' = Item.category o))
  | _, _ => False
  end.

(** After event [e] the list [new] is the list [old] in its order: the
    elements [kept] that the event did not remove (all of [old], or all but
    one when [e] is a delete) are a subsequence of [old]; [new] starts with
    [kept'], which is [kept] index by index, except that the add button or
    a checkbox may have written to the task at one index; and [new] ends
    with what was [appended], which is nothing unless [e] is the add
    button. *)
Definition in_order (e : event) (old new : list slot) : Prop :=
  ∃ kept kept' appended,
    kept `sublist_of` old
    ∧ (kept = old
       ∨ ∃ i, e = PressDelete i ∧ S (length kept) = length old)
    ∧ (kept' = kept
       ∨ ∃ (k : nat) x y,
           kept !! k = Some x ∧ touched x y ∧ kept' = <[k := y]> kept
           ∧ ((∃ now, e = PressAdd now) ∨ ∃ i, e = PressCheckbox i))
    ∧ new = kept' ++ appended
    ∧ (appended = [] ∨ ∃ now, e = PressAdd now).

(** [x.id] for an array element [x] that is an object. *)
Definition slot_id (x : slot) : option jsstring :=
  match x with
  | Obj o => Item.id o
  | _ => None
  end.

(** The identifiers present in an array, in array order. *)
Definition ids (a : list slot) : list jsstring := omap slot_id a.

(** No two tasks share an identifier. *)
Definition unique_ids (a : list slot) : Prop :=
  ∀ (i j : nat) (o o' : Item.t),
    a !! i = Some (Obj o) → a !! j = Some (Obj o') →
    Item.id o = Item.id o' → i = j.

(** The clock readings of a run's add events never go back and never
    repeat: each is at least [bound], and the next bound is one more. *)
Fixpoint increasing_from (bound : Z) (es : list event) : Prop :=
  match es with
  | [] => True
  | PressAdd now :: es' => bound ≤ now ∧ increasing_from (now + 1) es'
  | _ :: es' => increasing_from bound es'
  end.

(** Every identifier present is the decimal form of a clock reading below
    [bound], and none occurs twice. *)
Definition stamped (bound : Z) (a : list slot) : Prop :=
  NoDup (ids a) ∧ ∀ x, x ∈ ids a → ∃ t, x = toString t ∧ t < bound.

(** ** Sample runs and states *)

(** Two tasks added at one clock reading. *)
Definition same_reading : list event :=
  [ ChangeText (lit "a"); PressAdd 1700000000000;
    ChangeText (lit "b"); PressAdd 1700000000000 ].

(** One task added, opened for editing, deleted, and the form submitted
    through the index that is left behind. *)
Definition stale_index : list event :=
  [ ChangeText (lit "a"); PressAdd 1700000000000;
    PressEdit 0; PressDelete 0; PressAdd 1700000000001 ].

(** The same, done twice: two tasks without an [id], at increasing clock
    readings. *)
Definition stale_index_twice : list event :=
  stale_index ++
  [ ChangeText (lit "b"); PressAdd 1700000000002;
    PressEdit 1; PressDelete 1; PressAdd 1700000000003 ].

Definition milk : Item.t :=
  Item.mk (lit "milk") (lit "High") (lit "Shopping")
          (Some false) (Some (lit "1700000000000")).

Definition report : Item.t :=
  Item.mk (lit "report") (lit "Medium") (lit "Work")
          (Some true) (Some (lit "1700000000500")).

(** Two tasks in the list, a new text typed, nothing being edited. *)
Definition typing : State :=
  mkState (lit " call mum ") (lit "Low") (lit "Personal")
          [Obj milk; Obj report] None false.

(** The first task opened for editing and its text changed. *)
Definition editing : State :=
  mkState (lit "oat milk") (lit "High") (lit "Shopping")
          [Obj milk; Obj report] (Some 0%nat) false.

(** Only white space typed, while the second task is being edited. *)
Definition spaces : State :=
  mkState [0x20; 0x9; 0xA0]%N (lit "Medium") (lit "Work")
          [Obj milk; Obj report] (Some 1%nat) false.

(** ** Well-formed states *)

(** A value the priority picker offers. *)
Definition valid_priority (p : jsstring) : Prop :=
  ∃ x, p = priority_value x.

(** A value the category picker offers. *)
Definition valid_category (c : jsstring) : Prop :=
  ∃ x, c = category_value x.

(** What holds of an object stored in [tasks]: its text is not blank, its
    priority and category are picker values, and when it has an [id] it
    has a [completed] too. *)
Definition well_formed_item (o : Item.t) : Prop :=
  trim (Item.task o) ≠ []
  ∧ valid_priority (Item.priority o)
  ∧ valid_category (Item.category o)
  ∧ (is_Some (Item.id o) → is_Some (Item.completed o)).

Definition well_formed_slot (x : slot) : Prop :=
  match x with
  | Obj o => well_formed_item o
  | _ => True
  end.

Definition well_formed (s : State) : Prop :=
  valid_priority (priority s)
  ∧ valid_category (category s)
  ∧ Forall well_formed_slot (tasks s).

(** The [id] fields of an array, index by index, [None] where there is no
    object or the object has no [id]. *)
Definition id_fields (a : list slot) : list (option jsstring) :=
  slot_id <$> a.

(** Event [e], taking [s] to [s'], left every stored [id] alone.  For a
    delete the [id] fields are a subsequence of the old ones.  For any other
    event they are the old ones, index by index, followed by [extra]:
    nothing, or, for a submit of a text that is not blank, the decimal clock
    reading as the [id] of the appended task when no task was being edited,
    and absent [id]s only when the edited index is at or beyond the end. *)
Definition ids_kept (e : event) (s s' : State) : Prop :=
  (∃ i, e = PressDelete i
        ∧ id_fields (tasks s') `sublist_of` id_fields (tasks s))
  ∨ (∃ extra,
       id_fields (tasks s') = id_fields (tasks s) ++ extra
       ∧ (extra = []
          ∨ ∃ now, e = PressAdd now ∧ trim (task s) ≠ []
              ∧ ((editingIndex s = None ∧ extra = [Some (toString now)])
                 ∨ ∃ k, editingIndex s = Some k
                        ∧ (length (tasks s) ≤ k)%nat
                        ∧ extra
                          = replicate (S k - length (tasks s)) None))).

(** ** More sample states *)

(** The state [stale_index] ends in: one task, made by the submit through
    the index left behind. *)
Definition after_stale_index : State :=
  mkState (lit "") (lit "Medium") (lit "Work")
          [Obj (Item.mk (lit "a") (lit "Medium") (lit "Work") None None)]
          None false.

Definition call : Item.t :=
  Item.mk (lit "call mum") (lit "Low") (lit "Personal")
          (Some false) (Some (lit "1700000000900")).

(** Three tasks, nothing typed, nothing being edited. *)
Definition three : State :=
  mkState (lit "") (lit "Medium") (lit "Work")
          [Obj milk; Obj report; Obj call] None false.

(** One task left in the list while index 2 is still being edited. *)
Definition stale : State :=
  mkState (lit "call mum") (lit "Low") (lit "Personal")
          [Obj milk] (Some 2%nat) false.

(** Three tasks added at increasing clock readings, the second one
    deleted. *)
Definition three_adds : list event :=
  [ ChangeText (lit "a"); PressAdd 1700000000000;
    ChangeText (lit "b"); PickPriority High; PressAdd 1700000000001;
    ChangeText (lit "c"); PressAdd 1700000000002;
    PressDelete 1 ].

(** The state [three_adds] ends in. *)
Definition after_three_adds : State :=
  mkState (lit "") (lit "Medium") (lit "Work")
    [ Obj (Item.mk (lit "a") (lit "Medium") (lit "Work")
             (Some false) (Some (lit "1700000000000")));
      Obj (Item.mk (lit "c") (lit "Medium") (lit "Work")
             (Some false) (Some (lit "1700000000002"))) ]
    None false.

(** * Properties *)

(** ** Blank input *)

Section strings.
Implicit Types s : jsstring.

Lemma trimStart_nil_iff s : trimStart s = [] ↔ blank s.
Proof.
  unfold blank. induction s as [|c s IH]; simpl.
  - split; [constructor | done].
  - destruct (isWhiteSpace c) eqn:Hc.
    + rewrite IH. split; [by constructor | by inversion 1].
    + split; [done | inversion 1; congruence].
Qed.

Lemma trimStart_blank_iff s : blank (trimStart s) ↔ blank s.
Proof.
  unfold blank. induction s as [|c s IH]; simpl; [done|].
  destruct (isWhiteSpace c) eqn:Hc; [|done].
  rewrite IH. split; [by constructor | by inversion 1].
Qed.

Lemma trimEnd_nil_iff s : trimEnd s = [] ↔ blank s.
Proof.
  unfold trimEnd. rewrite <- (reverse_involutive []), (inj_iff reverse).
  rewrite reverse_nil, trimStart_nil_iff. unfold blank.
  by rewrite Forall_reverse.
Qed.

(** [s.trim()] is the empty string exactly when [s] is empty or all
    white space. *)
Lemma trim_nil_iff s : trim s = [] ↔ blank s.
Proof. unfold trim. by rewrite trimEnd_nil_iff, trimStart_blank_iff. Qed.

Lemma truthy_true_iff s : truthy s = true ↔ s ≠ [].
Proof. by destruct s. Qed.

Lemma truthy_trim_false s : blank s → truthy (trim s) = false.
Proof. intros H. apply trim_nil_iff in H. by rewrite H. Qed.

Lemma truthy_trim_true s : trim s ≠ [] → truthy (trim s) = true.
Proof. by rewrite truthy_true_iff. Qed.
End strings.

(** ** Arrays: copying, reading, assigning *)

Section arrays.
Implicit Types (a : list slot) (x : slot) (o : Item.t) (j k : nat).

Lemma length_spread a : length (spread a) = length a.
Proof. apply length_fmap. Qed.

Lemma lookup_spread_obj a j o :
  spread a !! j = Some (Obj o) ↔ a !! j = Some (Obj o).
Proof.
  unfold spread. rewrite list_lookup_fmap.
  destruct (a !! j) as [[| |o']|]; simpl; naive_solver.
Qed.

Lemma get_lookup a j : get a (Z.of_nat j) =
  match a !! j with Some (Obj o) => Some o | _ => None end.
Proof.
  unfold get. destruct (Z.ltb_spec (Z.of_nat j) 0) as [?|_]; [lia|].
  by rewrite Nat2Z.id.
Qed.

Lemma get_Some a i o :
  get a i = Some o ↔ 0 ≤ i ∧ a !! Z.to_nat i = Some (Obj o).
Proof.
  unfold get. destruct (Z.ltb_spec i 0) as [?|?].
  - split; [done | lia].
  - destruct (a !! Z.to_nat i) as [[| |o']|];
      (split; [intros [=]; by subst | intros [_ [=]]; by subst]).
Qed.

Lemma get_spread a i : get (spread a) i = get a i.
Proof.
  destruct (get a i) as [o|] eqn:E.
  - apply get_Some. apply get_Some in E as [? E].
    by rewrite lookup_spread_obj.
  - destruct (get (spread a) i) as [o|] eqn:E'; [|done].
    apply get_Some in E' as [? E'].
    apply (proj1 (lookup_spread_obj _ _ _)) in E'.
    assert (get a i = Some o) as E'' by (apply get_Some; split; assumption).
    congruence.
Qed.

(** Copying an array without holes gives the same sequence. *)
Lemma spread_dense a : Forall not_hole a → spread a = a.
Proof.
  unfold spread. induction 1 as [|x a Hx _ IH]; csimpl; [done|].
  rewrite IH. by destruct x.
Qed.

Lemma assign_lt a k x : (k < length a)%nat → assign a k x = <[k := x]> a.
Proof. intros. unfold assign. by rewrite decide_True. Qed.

Lemma assign_ge a k x :
  (length a ≤ k)%nat →
  assign a k x = a ++ replicate (k - length a)%nat Hole ++ [x].
Proof. intros. unfold assign. rewrite decide_False; [done | lia]. Qed.
End arrays.

(** ** [addTask] *)

Section addTask.
Variables (now : Z) (s : State).

Lemma addTask_blank : blank (task s) → addTask now s = s.
Proof. intros H. unfold addTask. by rewrite truthy_trim_false. Qed.

Lemma addTask_append :
  editingIndex s = None → trim (task s) ≠ [] →
  addTask now s =
    mkState (lit "") (lit "Medium") (lit "Work")
            (spread (tasks s) ++ [Obj (created now s)]) None (isDarkMode s).
Proof.
  intros He Ht. unfold addTask. by rewrite truthy_trim_true, He.
Qed.

Lemma addTask_update k :
  editingIndex s = Some k → trim (task s) ≠ [] →
  addTask now s =
    mkState (lit "") (lit "Medium") (lit "Work")
            (assign (spread (tasks s)) k
               (Obj (overwrite (get (tasks s) (Z.of_nat k))
                       (task s) (priority s) (category s))))
            None (isDarkMode s).
Proof.
  intros He Ht. unfold addTask. by rewrite truthy_trim_true, He, get_spread.
Qed.
End addTask.

(** C1. With no task being edited and a text that is not empty after
    trimming, [addTask] makes the list one longer; the new last element
    carries the form's text, priority and category and [completed: false];
    every task that was in the list is still at its index, unchanged. *)
Theorem addTask_appends_one (now : Z) (s : State) :
  editingIndex s = None →
  trim (task s) ≠ [] →
  length (tasks (addTask now s)) = S (length (tasks s))
  ∧ (∃ t, tasks (addTask now s) !! length (tasks s) = Some (Obj t)
          ∧ Item.task t = task s
          ∧ Item.priority t = priority s
          ∧ Item.category t = category s
          ∧ Item.completed t = Some false
          ∧ Item.id t = Some (toString now))
  ∧ (∀ j o, tasks s !! j = Some (Obj o) →
            tasks (addTask now s) !! j = Some (Obj o))
  ∧ (Forall not_hole (tasks s) →
     tasks (addTask now s) = tasks s ++ [Obj (created now s)]).
Proof.
  intros He Ht. rewrite addTask_append by done. simpl.
  split_and!.
  - rewrite length_app, length_spread. simpl. lia.
  - exists (created now s). split; [|done].
    rewrite lookup_app_r; rewrite length_spread; [|done].
    by rewrite Nat.sub_diag.
  - intros j o Hj. rewrite lookup_app_l.
    + by apply lookup_spread_obj.
    + rewrite length_spread. by eapply lookup_lt_Some.
  - intros Hd. by rewrite spread_dense.
Qed.

(** C2. When the text is empty or all white space, [addTask] returns the
    state it was given, with or without a task being edited, and pressing
    the button raises nothing. *)
Theorem addTask_blank_noop (now : Z) (s : State) :
  blank (task s) →
  addTask now s = s ∧ step s (PressAdd now) = Done s.
Proof.
  intros H. simpl. by rewrite addTask_blank.
Qed.

(** C8. After [addTask] with a text that is not empty after trimming, the
    text is empty, the priority is Medium, the category is Work and no task
    is being edited, whether the task was appended or updated. *)
Theorem addTask_clears_form (now : Z) (s : State) :
  trim (task s) ≠ [] →
  task (addTask now s) = []
  ∧ priority (addTask now s) = priority_value Medium
  ∧ category (addTask now s) = category_value Work
  ∧ editingIndex (addTask now s) = None.
Proof.
  intros Ht. destruct (editingIndex s) as [k|] eqn:He.
  - by rewrite (addTask_update now s k).
  - by rewrite addTask_append.
Qed.

(** C10. [deleteTask] leaves the editing index and the three form fields as
    they were, for every index, the one being edited included. *)
Theorem deleteTask_keeps_form (index : Z) (s : State) :
  editingIndex (deleteTask index s) = editingIndex s
  ∧ task (deleteTask index s) = task s
  ∧ priority (deleteTask index s) = priority s
  ∧ category (deleteTask index s) = category s.
Proof. done. Qed.

(** C3. In editing mode, with the stored index [k] holding a task and a
    text that is not empty after trimming, [addTask] overwrites the text,
    priority and category of the task at [k] and keeps its [id] and
    [completed]; the task stays at [k], the length is the same and every
    other index holds the task it held before. *)
Theorem addTask_edits_in_place (now : Z) (s : State) (k : nat) (o : Item.t) :
  editingIndex s = Some k →
  tasks s !! k = Some (Obj o) →
  trim (task s) ≠ [] →
  ∃ o', tasks (addTask now s) !! k = Some (Obj o')
    ∧ Item.task o' = task s
    ∧ Item.priority o' = priority s
    ∧ Item.category o' = category s
    ∧ Item.id o' = Item.id o
    ∧ Item.completed o' = Item.completed o
    ∧ length (tasks (addTask now s)) = length (tasks s)
    ∧ (∀ j u, j ≠ k →
         tasks (addTask now s) !! j = Some (Obj u) ↔
         tasks s !! j = Some (Obj u))
    ∧ (Forall not_hole (tasks s) →
       tasks (addTask now s) = <[k := Obj o']> (tasks s)).
Proof.
  intros He Hk Ht. rewrite (addTask_update now s k) by done. simpl.
  assert (k < length (spread (tasks s)))%nat as Hlt.
  { rewrite length_spread. by eapply lookup_lt_Some. }
  rewrite assign_lt, get_lookup, Hk by done. simpl.
  exists (Item.mk (task s) (priority s) (category s)
            (Item.completed o) (Item.id o)).
  split_and!; try reflexivity.
  - by apply list_lookup_insert_eq.
  - by rewrite length_insert, length_spread.
  - intros j u Hj. rewrite list_lookup_insert_ne by done.
    apply lookup_spread_obj.
  - intros Hd. by rewrite spread_dense.
Qed.

(** ** [deleteTask] *)

Section deleteTask.
Variable index : Z.

Lemma filter_from_past (i : Z) (a : list slot) :
  Forall not_hole a → index < i → filter_from (keep index) i a = a.
Proof.
  intros Hd. revert i.
  induction Hd as [|x a Hx _ IH]; intros i Hi; simpl; [done|].
  assert (keep index x i = true) as ->
    by (unfold keep; apply negb_true_iff; lia).
  rewrite IH by lia. by destruct x.
Qed.

Lemma filter_from_delete (i : Z) (a : list slot) :
  Forall not_hole a → i ≤ index →
  filter_from (keep index) i a = delete (Z.to_nat (index - i)) a.
Proof.
  intros Hd. revert i.
  induction Hd as [|x a Hx Hd IH]; intros i Hi; simpl; [done|].
  destruct (Z.eqb_spec i index) as [->|Hne].
  - assert (keep index x index = false) as ->
      by (unfold keep; apply negb_false_iff; lia).
    rewrite filter_from_past by (done || lia).
    rewrite Z.sub_diag. by destruct x.
  - assert (keep index x i = true) as ->
      by (unfold keep; apply negb_true_iff; lia).
    rewrite IH by lia.
    replace (Z.to_nat (index - i)) with (S (Z.to_nat (index - (i + 1))))
      by lia.
    by destruct x.
Qed.

Lemma deleteTask_dense (s : State) :
  Forall not_hole (tasks s) → 0 ≤ index →
  tasks (deleteTask index s) = delete (Z.to_nat index) (tasks s).
Proof.
  intros Hd Hi. simpl. unfold array_filter.
  rewrite filter_from_delete by done. by rewrite Z.sub_0_r.
Qed.

Lemma deleteTask_negative (s : State) :
  Forall not_hole (tasks s) → index < 0 →
  tasks (deleteTask index s) = tasks s.
Proof.
  intros Hd Hi. simpl. unfold array_filter.
  by rewrite filter_from_past.
Qed.
End deleteTask.

Lemma delete_ge {A} (l : list A) (n : nat) :
  (length l ≤ n)%nat → delete n l = l.
Proof.
  revert n. induction l as [|x l IH]; intros [|n] Hn; simpl in *;
    try done; try lia.
  f_equal. apply IH. lia.
Qed.

(** C4. On a list of tasks (an array without holes) and an index [i]
    inside it, [deleteTask] removes the element at [i]: the list is one
    shorter, every index below [i] holds what it held, and what was at an
    index [j] above [i] is now at [j - 1]. *)
Theorem deleteTask_removes_one (i : Z) (s : State) :
  Forall not_hole (tasks s) →
  0 ≤ i < Z.of_nat (length (tasks s)) →
  S (length (tasks (deleteTask i s))) = length (tasks s)
  ∧ (∀ j : nat, Z.of_nat j < i →
       tasks (deleteTask i s) !! j = tasks s !! j)
  ∧ (∀ j : nat, i < Z.of_nat j →
       tasks (deleteTask i s) !! (j - 1)%nat = tasks s !! j).
Proof.
  intros Hd Hi. rewrite deleteTask_dense by (done || lia).
  split_and!.
  - rewrite length_delete; [lia|].
    apply lookup_lt_is_Some. lia.
  - intros j Hj. apply list_lookup_delete_lt. lia.
  - intros j Hj. rewrite list_lookup_delete_ge by lia.
    f_equal. lia.
Qed.

(** C9. On a list of tasks (an array without holes) and an index outside
    it (negative, or at or beyond the length), [deleteTask] returns the
    state unchanged. *)
Theorem deleteTask_out_of_range (i : Z) (s : State) :
  Forall not_hole (tasks s) →
  i < 0 ∨ Z.of_nat (length (tasks s)) ≤ i →
  deleteTask i s = s.
Proof.
  intros Hd Hi.
  assert (tasks (deleteTask i s) = tasks s) as Ht.
  { destruct (Z.ltb_spec i 0).
    - by apply deleteTask_negative.
    - rewrite deleteTask_dense by done. apply delete_ge. lia. }
  destruct s. unfold deleteTask in *. simpl in *. by rewrite Ht.
Qed.

(** ** [toggleTaskCompletion] *)

Lemma toggle_Done (i : Z) (s : State) (o : Item.t) :
  0 ≤ i →
  tasks s !! Z.to_nat i = Some (Obj o) →
  toggleTaskCompletion i s =
    Done (mkState (task s) (priority s) (category s)
            (<[Z.to_nat i := Obj (flipped o)]> (spread (tasks s)))
            (editingIndex s) (isDarkMode s)).
Proof.
  intros Hi Ho. unfold toggleTaskCompletion. simpl.
  rewrite get_spread.
  assert (get (tasks s) i = Some o) as -> by (apply get_Some; split; done).
  done.
Qed.

(** The handler raises exactly when [tasks[index]] is not an object. *)
Lemma toggle_TypeError (i : Z) (s : State) :
  toggleTaskCompletion i s = TypeError ↔ get (tasks s) i = None.
Proof.
  unfold toggleTaskCompletion. simpl. rewrite get_spread.
  by destruct (get (tasks s) i).
Qed.

Lemma flipped_flipped (o : Item.t) (b : bool) :
  Item.completed o = Some b → flipped (flipped o) = o.
Proof.
  destruct o as [t p c d i]. simpl. intros ->.
  unfold flipped, not_completed. simpl. by rewrite negb_involutive.
Qed.

(** C5. On an index [i] that holds a task whose [completed] is a boolean,
    [toggleTaskCompletion] returns; once, it negates [completed] of that
    task and changes no other field and no other task; twice, the task at
    [i] is back to what it was, and so is the whole state when the array
    has no holes. *)
Theorem toggle_involution (i : Z) (s : State) (o : Item.t) (b : bool) :
  0 ≤ i →
  tasks s !! Z.to_nat i = Some (Obj o) →
  Item.completed o = Some b →
  ∃ s1 s2 o1,
    toggleTaskCompletion i s = Done s1
    ∧ toggleTaskCompletion i s1 = Done s2
    ∧ tasks s1 !! Z.to_nat i = Some (Obj o1)
    ∧ Item.completed o1 = Some (negb b)
    ∧ Item.task o1 = Item.task o
    ∧ Item.priority o1 = Item.priority o
    ∧ Item.category o1 = Item.category o
    ∧ Item.id o1 = Item.id o
    ∧ length (tasks s1) = length (tasks s)
    ∧ (∀ j u, j ≠ Z.to_nat i →
         tasks s1 !! j = Some (Obj u) ↔ tasks s !! j = Some (Obj u))
    ∧ tasks s2 !! Z.to_nat i = Some (Obj o)
    ∧ (Forall not_hole (tasks s) → s2 = s).
Proof.
  intros Hi Ho Hb.
  assert (Z.to_nat i < length (spread (tasks s)))%nat as Hlt.
  { rewrite length_spread. by eapply lookup_lt_Some. }
  set (a1 := <[Z.to_nat i := Obj (flipped o)]> (spread (tasks s))).
  assert (a1 !! Z.to_nat i = Some (Obj (flipped o))) as H1
    by by apply list_lookup_insert_eq.
  eexists _, _, (flipped o). split_and!.
  - by apply toggle_Done.
  - by apply toggle_Done.
  - done.
  - unfold flipped, not_completed. simpl. by rewrite Hb.
  - done.
  - done.
  - done.
  - done.
  - simpl. by rewrite length_insert, length_spread.
  - intros j u Hj. simpl. rewrite list_lookup_insert_ne by done.
    apply lookup_spread_obj.
  - simpl. rewrite (flipped_flipped o b) by done.
    apply list_lookup_insert_eq.
    rewrite length_spread. by eapply lookup_lt_Some.
  - intros Hd. simpl. rewrite (flipped_flipped o b) by done.
    rewrite (spread_dense (tasks s)) by done.
    rewrite spread_dense by (by apply Forall_insert).
    rewrite list_insert_insert_eq, list_insert_id by done.
    by destruct s.
Qed.

(** An object without a [completed] property (one made by an update
    through a stale index) does not come back to that: two toggles leave
    [completed] at [false]. *)
Lemma flipped_flipped_missing (o : Item.t) :
  Item.completed o = None →
  Item.completed (flipped (flipped o)) = Some false.
Proof. intros Hc. unfold flipped, not_completed. simpl. by rewrite Hc. Qed.

(** The list that [stale_index] reaches holds one task, without a
    [completed] property; the checkbox pressed twice on it returns both
    times and leaves [completed] at [false], which is not what it was. *)
Lemma toggle_twice_not_original :
  run init stale_index = Done after_stale_index
  ∧ ∃ s1 s2 o o2,
      tasks after_stale_index !! 0%nat = Some (Obj o)
      ∧ toggleTaskCompletion 0 after_stale_index = Done s1
      ∧ toggleTaskCompletion 0 s1 = Done s2
      ∧ tasks s2 !! 0%nat = Some (Obj o2)
      ∧ Item.completed o = None
      ∧ Item.completed o2 = Some false
      ∧ Item.completed o2 ≠ Item.completed o.
Proof.
  split; [reflexivity|].
  eexists _, _, _, _.
  split_and!; try reflexivity. discriminate.
Qed.

(** ** Order of the list *)

Section order.
Implicit Types (a : list slot) (o : Item.t).






End order.


(** A list of two different tasks is not in order when swapped, whatever
    the event, also when the two have the same [id] or none. *)
Lemma in_order_not_swapped (e : event) (x y : slot) :
  x ≠ y → ¬ in_order e [x; y] [y; x].
Proof.
  intros Hne (kept & kept' & appended & Hsub & Hkept & Hkept' & Hnew & Happ).
  assert (length kept' = length kept) as Hlen.
  { destruct Hkept' as [->|(k & u & v & _ & _ & -> & _)]; [done|].
    apply length_insert. }
  apply (f_equal length) in Hnew as Hl. rewrite length_app in Hl.
  simpl in Hl.
  destruct Hkept as [->|(i & -> & Hk)].
  - simpl in Hlen. destruct appended; [|simpl in Hl; lia].
    rewrite app_nil_r in Hnew.
    destruct Hkept' as [->|(k & u & v & Hk & _ & -> & _)].
    + injection Hnew as -> _. done.
    + destruct k as [|[|k]]; simplify_eq/=.
  - simpl in Hk. destruct Happ as [->|[now [=]]].
    simpl in Hl. lia.
Qed.

(** ** Identifiers *)

Section toString.
Lemma lit_inj (s t : string) : lit s = lit t → s = t.
Proof.
  unfold lit. intros H.
  apply (f_equal (fmap ascii_of_N)) in H.
  rewrite <- !list_fmap_compose in H.
  rewrite !(list_fmap_ext (ascii_of_N ∘ N_of_ascii) id) in H
    by (intros; apply ascii_N_embedding).
  rewrite !list_fmap_id in H.
  rewrite <- (string_of_list_ascii_of_string s), H.
  apply string_of_list_ascii_of_string.
Qed.

Lemma to_int_norm (n : Z) : Decimal.norm (Z.to_int n) = Z.to_int n.
Proof. rewrite <- DecimalZ.to_of. by rewrite DecimalZ.of_to. Qed.

(** Different clock readings print differently. *)
Lemma toString_inj (m n : Z) : toString m = toString n → m = n.
Proof.
  unfold toString. intros H. apply lit_inj in H.
  apply DecimalZ.to_int_inj.
  assert (∀ k, NilZero.int_of_string (NilZero.string_of_int (Z.to_int k))
               = Some (Z.to_int k)) as Hk.
  { intros k. apply NilZero.isi; intros E;
      pose proof (to_int_norm k) as Hn; rewrite E in Hn; discriminate. }
  pose proof (Hk m) as Hm. rewrite H, Hk in Hm. congruence.
Qed.
End toString.

Section ids.
Implicit Types (a : list slot) (x y : slot) (k : nat).

Lemma sublist_omap {A B} (f : A → option B) (l1 l2 : list A) :
  l1 `sublist_of` l2 → omap f l1 `sublist_of` omap f l2.
Proof.
  induction 1 as [|z l1 l2 _ IH|z l1 l2 _ IH]; simpl.
  - constructor.
  - destruct (f z); [by constructor | done].
  - destruct (f z); [by constructor | done].
Qed.

Lemma filter_from_sublist cb (i : Z) a : filter_from cb i a `sublist_of` a.
Proof.
  revert i. induction a as [|x a IH]; intros i; simpl; [constructor|].
  destruct x; try destruct (cb _ i);
    (by apply sublist_skip) || (by apply sublist_cons).
Qed.

Lemma ids_spread a : ids (spread a) = ids a.
Proof.
  unfold ids, spread. induction a as [|x a IH]; csimpl; [done|].
  rewrite IH. by destruct x.
Qed.

Lemma ids_insert_same a k x y :
  a !! k = Some x → slot_id x = slot_id y → ids (<[k := y]> a) = ids a.
Proof.
  unfold ids. revert k.
  induction a as [|z a IH]; intros [|k] Hk Hid; simplify_eq/=.
  - by rewrite Hid.
  - by rewrite IH.
Qed.

Lemma ids_replicate_hole (n : nat) : ids (replicate n Hole) = [].
Proof. unfold ids. induction n as [|n IH]; simpl; done. Qed.

(** An update through [editingIndex] adds no identifier and removes
    none, wherever the index points. *)
Lemma ids_assign_overwrite a k (t p c : jsstring) :
  ids (assign (spread a) k (Obj (overwrite (get a (Z.of_nat k)) t p c)))
  = ids a.
Proof.
  rewrite get_lookup.
  destruct (decide (k < length (spread a))%nat) as [Hk|Hk].
  - rewrite assign_lt by done. rewrite <- (ids_spread a).
    rewrite length_spread in Hk.
    destruct (lookup_lt_is_Some_2 a k Hk) as [x Hx]. rewrite Hx.
    eapply ids_insert_same.
    + unfold spread. by rewrite list_lookup_fmap, Hx.
    + by destruct x.
  - rewrite assign_ge by lia. rewrite length_spread in Hk.
    rewrite lookup_ge_None_2 by lia. unfold ids.
    rewrite !omap_app. fold (ids (spread a)).
    fold (ids (replicate (k - length (spread a)) Hole)).
    rewrite ids_spread, ids_replicate_hole. simpl. by rewrite app_nil_r.
Qed.

(** What one event does to the identifiers: it keeps a subsequence of
    them, or it is an add at clock reading [now] and puts [now]'s decimal
    form at the end. *)
Lemma step_ids (s s' : State) (e : event) :
  step s e = Done s' →
  ids (tasks s') `sublist_of` ids (tasks s)
  ∨ ∃ now, e = PressAdd now
           ∧ ids (tasks s') = ids (tasks s) ++ [toString now].
Proof.
  intros Hstep.
  destruct e as [text|p|c|now|i|i|i|]; simpl in Hstep;
    try (injection Hstep as <-; by left).
  - injection Hstep as <-.
    destruct (truthy (trim (task s))) eqn:Ht.
    2:{ left. unfold addTask. by rewrite Ht. }
    apply truthy_true_iff in Ht.
    destruct (editingIndex s) as [k|] eqn:He.
    + left. rewrite (addTask_update now s k) by done. simpl.
      by rewrite ids_assign_overwrite.
    + right. exists now. split; [done|].
      rewrite addTask_append by done. simpl. unfold ids.
      rewrite omap_app. fold (ids (spread (tasks s))).
      by rewrite ids_spread.
  - injection Hstep as <-. left. simpl.
    apply sublist_omap, filter_from_sublist.
  - unfold toggleTaskCompletion in Hstep. simpl in Hstep.
    destruct (get (spread (tasks s)) i) as [o|] eqn:Ho; [|done].
    injection Hstep as <-. left. simpl.
    apply get_Some in Ho as [_ Ho].
    erewrite ids_insert_same; [|exact Ho|done].
    by rewrite ids_spread.
  - unfold editTask in Hstep.
    destruct (get (tasks s) i) as [o|]; [|done].
    injection Hstep as <-. by left.
Qed.
End ids.

(** ** Identifiers along a run *)

Section runs.
Implicit Types (a : list slot) (s : State) (es : list event).

Lemma stamped_mono (b b' : Z) a : b ≤ b' → stamped b a → stamped b' a.
Proof.
  intros Hb [Hn Hx]. split; [done|].
  intros x Hin. destruct (Hx x Hin) as (t & -> & Ht).
  exists t. split; [done | lia].
Qed.

Lemma stamped_sublist (b : Z) a a' :
  ids a' `sublist_of` ids a → stamped b a → stamped b a'.
Proof.
  intros Hs [Hn Hx]. split.
  - by eapply sublist_NoDup.
  - intros x Hin. apply Hx. by eapply sublist_subseteq.
Qed.

Lemma stamped_snoc (b now : Z) a a' :
  b ≤ now → ids a' = ids a ++ [toString now] →
  stamped b a → stamped (now + 1) a'.
Proof.
  intros Hb Heq [Hn Hx]. unfold stamped. rewrite Heq. split.
  - apply NoDup_app. split_and!; [done| |apply NoDup_singleton].
    intros x Hin Hnow. apply list_elem_of_singleton in Hnow as ->.
    destruct (Hx _ Hin) as (t & Ht & Hlt).
    apply toString_inj in Ht. lia.
  - intros x Hin. apply elem_of_app in Hin as [Hin|Hin].
    + destruct (Hx x Hin) as (t & -> & Ht). exists t. split; [done | lia].
    + apply list_elem_of_singleton in Hin as ->.
      exists now. split; [done | lia].
Qed.

Lemma run_stamped es : ∀ s s' (bound : Z),
  stamped bound (tasks s) → increasing_from bound es →
  run s es = Done s' → ∃ bound', stamped bound' (tasks s').
Proof.
  induction es as [|e es IH]; intros s s' bound Hst Hinc Hrun; simpl in Hrun.
  - injection Hrun as <-. by exists bound.
  - destruct (step s e) as [s1|] eqn:Hstep; [|done].
    destruct (step_ids s s1 e Hstep) as [Hsub|(now & -> & Happ)].
    + assert (∃ b1, bound ≤ b1 ∧ increasing_from b1 es)
        as (b1 & Hb1 & Hinc1).
      { destruct e; simpl in Hinc; try (exists bound; split; [lia|done]).
        destruct Hinc as [? ?]. eexists; split; [|done]. lia. }
      apply (IH s1 s' b1); [|done|done].
      eapply stamped_mono; [done|]. by eapply stamped_sublist.
    + simpl in Hinc. destruct Hinc as [Hb Hinc].
      apply (IH s1 s' (now + 1)); [|done|done].
      by eapply stamped_snoc.
Qed.

(** X11. When the clock readings of the add events strictly increase, the
    identifiers present in a reachable list are pairwise different. *)
Lemma increasing_clock_unique_ids es s (bound : Z) :
  increasing_from bound es → run init es = Done s → NoDup (ids (tasks s)).
Proof.
  intros Hinc Hrun.
  destruct (run_stamped es init s bound) as [b' [Hn _]]; try done.
  split; [constructor|]. intros x Hx. by apply elem_of_nil in Hx.
Qed.
End runs.

(** ** Sample runs *)

Example stale_index_run :
  run init stale_index =
    Done (mkState (lit "") (lit "Medium") (lit "Work")
            [Obj (Item.mk (lit "a") (lit "Medium") (lit "Work") None None)]
            None false).
Proof. reflexivity. Qed.

(** C6. The list reached by adding two tasks at the same clock reading
    holds two tasks with the same [id], the decimal form of that reading. *)
Theorem same_clock_reading_same_id :
  ∃ s, run init same_reading = Done s
       ∧ tasks s =
           [ Obj (Item.mk (lit "a") (lit "Medium") (lit "Work")
                    (Some false) (Some (lit "1700000000000")));
             Obj (Item.mk (lit "b") (lit "Medium") (lit "Work")
                    (Some false) (Some (lit "1700000000000"))) ]
       ∧ reachable s
       ∧ ¬ unique_ids (tasks s).
Proof.
  eexists. split; [reflexivity|]. split; [reflexivity|]. split.
  - by exists same_reading.
  - intros Hu. simpl in Hu.
    specialize (Hu 0%nat 1%nat _ _ eq_refl eq_refl eq_refl). discriminate.
Qed.

Example stale_index_twice_run :
  run init stale_index_twice =
    Done (mkState (lit "") (lit "Medium") (lit "Work")
            [ Obj (Item.mk (lit "a") (lit "Medium") (lit "Work") None None);
              Obj (Item.mk (lit "b") (lit "Medium") (lit "Work") None None) ]
            None false).
Proof. reflexivity. Qed.

(** An update through a stale index beyond the end leaves a hole, and the
    next delete, whatever its index, drops the hole as well. *)
Example deleteTask_drops_holes :
  let a := [Obj (Item.mk (lit "a") (lit "Low") (lit "Other")
                   (Some false) (Some (lit "7")))] in
  let s := mkState (lit "c") (lit "Low") (lit "Other") a (Some 2%nat) false in
  tasks (addTask 9 s) =
    a ++ [Hole; Obj (Item.mk (lit "c") (lit "Low") (lit "Other") None None)]
  ∧ tasks (deleteTask 5 (addTask 9 s)) =
    a ++ [Obj (Item.mk (lit "c") (lit "Low") (lit "Other") None None)].
Proof. split; reflexivity. Qed.

(** ** The theorems at sample states *)

Lemma addTask_appends_one_witness :
  length (tasks (addTask 1700000001000 typing)) = 3%nat
  ∧ tasks (addTask 1700000001000 typing) !! 0%nat = Some (Obj milk).
Proof.
  destruct (addTask_appends_one 1700000001000 typing) as (Hl & _ & Hj & _).
  - reflexivity.
  - vm_compute. discriminate.
  - split; [exact Hl | apply Hj; reflexivity].
Defined.

Lemma addTask_blank_noop_witness : addTask 1700000001000 spaces = spaces.
Proof.
  apply (addTask_blank_noop 1700000001000 spaces).
  repeat constructor.
Defined.

Lemma addTask_edits_in_place_witness :
  ∃ o', tasks (addTask 1700000001000 editing) !! 0%nat = Some (Obj o')
        ∧ Item.task o' = lit "oat milk"
        ∧ Item.id o' = Item.id milk.
Proof.
  destruct (addTask_edits_in_place 1700000001000 editing 0 milk)
    as (o' & H0 & Ht & _ & _ & Hid & _).
  - reflexivity.
  - reflexivity.
  - vm_compute. discriminate.
  - exists o'. split_and!; assumption.
Defined.

Lemma deleteTask_removes_one_witness :
  S (length (tasks (deleteTask 0 typing))) = 2%nat
  ∧ tasks (deleteTask 0 typing) !! 0%nat = Some (Obj report).
Proof.
  destruct (deleteTask_removes_one 0 typing) as (Hl & _ & Hj).
  - repeat constructor.
  - simpl. lia.
  - split; [exact Hl | apply (Hj 1%nat); lia].
Defined.

Lemma deleteTask_out_of_range_witness :
  deleteTask 2 typing = typing ∧ deleteTask (-1) typing = typing.
Proof.
  split; apply deleteTask_out_of_range;
    try (repeat constructor); simpl; lia.
Defined.

Lemma toggle_involution_witness :
  ∃ s1 s2,
    toggleTaskCompletion 1 typing = Done s1
    ∧ toggleTaskCompletion 1 s1 = Done s2
    ∧ s2 = typing.
Proof.
  destruct (toggle_involution 1 typing report true)
    as (s1 & s2 & o1 & H1 & H2 & H).
  - lia.
  - reflexivity.
  - reflexivity.
  - exists s1, s2. split_and!; [exact H1 | exact H2 |].
    apply H. repeat constructor.
Defined.


Lemma addTask_clears_form_witness :
  task (addTask 1700000001000 editing) = []
  ∧ editingIndex (addTask 1700000001000 editing) = None.
Proof.
  destruct (addTask_clears_form 1700000001000 editing) as (Ht & _ & _ & He).
  - vm_compute. discriminate.
  - split; assumption.
Defined.

(** * Further properties of the handlers *)

(** ** Handlers that raise *)

Lemma get_out_of_range (a : list slot) (i : Z) :
  i < 0 ∨ Z.of_nat (length a) ≤ i → get a i = None.
Proof.
  intros Hi. destruct (get a i) as [o|] eqn:E; [|done].
  apply get_Some in E as [? E]. apply lookup_lt_Some in E. lia.
Qed.

Lemma editTask_Done (i : Z) (s : State) (o : Item.t) :
  0 ≤ i →
  tasks s !! Z.to_nat i = Some (Obj o) →
  editTask i s =
    Done (mkState (Item.task o) (Item.priority o) (Item.category o)
            (tasks s) (Some (Z.to_nat i)) (isDarkMode s)).
Proof.
  intros Hi Ho. unfold editTask.
  assert (get (tasks s) i = Some o) as -> by (apply get_Some; split; done).
  done.
Qed.

(** X1. The checkbox and the edit control raise a [TypeError] at the same
    indices, those where [tasks[index]] is not an object; every index
    outside the list, negative or too large, is one. *)
Theorem out_of_range_raises (i : Z) (s : State) :
  i < 0 ∨ Z.of_nat (length (tasks s)) ≤ i →
  toggleTaskCompletion i s = TypeError
  ∧ editTask i s = TypeError
  ∧ step s (PressCheckbox i) = TypeError
  ∧ step s (PressEdit i) = TypeError.
Proof.
  intros Hi. apply get_out_of_range in Hi.
  assert (toggleTaskCompletion i s = TypeError) as Ht
    by by apply toggle_TypeError.
  assert (editTask i s = TypeError) as He
    by (unfold editTask; by rewrite Hi).
  by simpl.
Qed.

Lemma out_of_range_raises_witness :
  toggleTaskCompletion 3 three = TypeError
  ∧ editTask (-1) three = TypeError.
Proof.
  split.
  - apply (out_of_range_raises 3 three). simpl. lia.
  - apply (out_of_range_raises (-1) three). simpl. lia.
Defined.

(** ** Editing and submitting *)

Lemma overwrite_same (o : Item.t) :
  overwrite (Some o) (Item.task o) (Item.priority o) (Item.category o) = o.
Proof. by destruct o. Qed.

(** X2. Opening a task for editing and submitting the form as it was
    loaded gives back the list that was there (on a list without holes and
    a task whose text is not blank), and leaves no task being edited. *)
Theorem edit_then_submit_restores (now i : Z) (s : State) (o : Item.t) :
  Forall not_hole (tasks s) →
  0 ≤ i →
  tasks s !! Z.to_nat i = Some (Obj o) →
  trim (Item.task o) ≠ [] →
  ∃ s1, editTask i s = Done s1
        ∧ tasks (addTask now s1) = tasks s
        ∧ editingIndex (addTask now s1) = None.
Proof.
  intros Hd Hi Ho Ht. eexists. split; [by apply editTask_Done|].
  rewrite (addTask_update now _ (Z.to_nat i)) by done. simpl.
  split; [|done].
  rewrite spread_dense by done.
  rewrite assign_lt by by eapply lookup_lt_Some.
  rewrite get_lookup, Ho, overwrite_same.
  by apply list_insert_id.
Qed.

Lemma edit_then_submit_restores_witness :
  ∃ s1, editTask 1 three = Done s1
        ∧ tasks (addTask 1700000002000 s1) = tasks three
        ∧ editingIndex (addTask 1700000002000 s1) = None.
Proof.
  apply (edit_then_submit_restores 1700000002000 1 three report).
  - repeat constructor.
  - lia.
  - reflexivity.
  - vm_compute. discriminate.
Defined.

(** X3. A delete at or below the index being edited moves the next task
    onto that index, and the submit then overwrites that task: it gets the
    text, priority and category of the task that was opened and keeps its
    own [id] and [completed].  When the delete was strictly below, the task
    that was opened is still in the list, unchanged, one index down. *)
Theorem delete_while_editing_overwrites_next
    (now : Z) (j k : nat) (s : State) (o next : Item.t) :
  Forall not_hole (tasks s) →
  (j ≤ k)%nat →
  tasks s !! k = Some (Obj o) →
  tasks s !! S k = Some (Obj next) →
  trim (Item.task o) ≠ [] →
  ∃ s1, editTask (Z.of_nat k) s = Done s1
    ∧ tasks (addTask now (deleteTask (Z.of_nat j) s1)) !! k =
        Some (Obj (Item.mk (Item.task o) (Item.priority o) (Item.category o)
                     (Item.completed next) (Item.id next)))
    ∧ S (length (tasks (addTask now (deleteTask (Z.of_nat j) s1))))
      = length (tasks s)
    ∧ ((j < k)%nat →
       tasks (addTask now (deleteTask (Z.of_nat j) s1)) !! (k - 1)%nat
       = Some (Obj o)).
Proof.
  intros Hd Hj Ho Hn Ht. eexists. split.
  { apply editTask_Done; [lia|]. by rewrite Nat2Z.id. }
  rewrite Nat2Z.id.
  set (s2 := deleteTask (Z.of_nat j) _).
  assert (tasks s2 = delete j (tasks s)) as Hdel.
  { unfold s2. rewrite deleteTask_dense by (done || lia).
    by rewrite Nat2Z.id. }
  assert (editingIndex s2 = Some k) as He by done.
  assert (task s2 = Item.task o ∧ priority s2 = Item.priority o
          ∧ category s2 = Item.category o) as (Hf1 & Hf2 & Hf3) by done.
  clearbody s2.
  assert (j < length (tasks s))%nat as Hjlt
    by (apply lookup_lt_Some in Ho; lia).
  assert (delete j (tasks s) !! k = Some (Obj next)) as Hk
    by by rewrite list_lookup_delete_ge.
  assert (length (delete j (tasks s)) = length (tasks s) - 1)%nat as Hlen
    by (apply length_delete; by apply lookup_lt_is_Some).
  rewrite (addTask_update now s2 k) by (done || by rewrite Hf1).
  simpl. rewrite Hdel, Hf1, Hf2, Hf3.
  rewrite spread_dense by by apply Forall_delete.
  rewrite assign_lt by by eapply lookup_lt_Some.
  rewrite get_lookup, Hk. simpl. split_and!.
  - apply list_lookup_insert_eq. by eapply lookup_lt_Some.
  - rewrite length_insert, Hlen. lia.
  - intros Hlt. rewrite list_lookup_insert_ne by lia.
    rewrite list_lookup_delete_ge by lia.
    by replace (S (k - 1)) with k by lia.
Qed.

Lemma delete_while_editing_overwrites_next_witness :
  ∃ s1, editTask 1 three = Done s1
    ∧ tasks (addTask 1700000002000 (deleteTask 0 s1)) !! 1%nat =
        Some (Obj (Item.mk (lit "report") (lit "Medium") (lit "Work")
                     (Some false) (Some (lit "1700000000900")))).
Proof.
  destruct (delete_while_editing_overwrites_next
              1700000002000 0 1 three report call)
    as (s1 & H1 & H2 & _).
  - repeat constructor.
  - lia.
  - reflexivity.
  - reflexivity.
  - vm_compute. discriminate.
  - exists s1. split; [exact H1 | exact H2].
Defined.

(** X4. A submit through an index at or beyond the end of the list does
    not update any task: the list grows to that index plus one, the new
    last element carries the form values and has neither [id] nor
    [completed], the indices in between are holes, and the tasks that were
    there stay. *)
Theorem submit_past_end_grows (now : Z) (s : State) (k : nat) :
  editingIndex s = Some k →
  (length (tasks s) ≤ k)%nat →
  trim (task s) ≠ [] →
  length (tasks (addTask now s)) = S k
  ∧ tasks (addTask now s) !! k =
      Some (Obj (Item.mk (task s) (priority s) (category s) None None))
  ∧ (∀ j, (length (tasks s) ≤ j < k)%nat →
          tasks (addTask now s) !! j = Some Hole)
  ∧ (∀ j o, tasks s !! j = Some (Obj o) →
            tasks (addTask now s) !! j = Some (Obj o)).
Proof.
  intros He Hk Ht. rewrite (addTask_update now s k) by done. simpl.
  rewrite assign_ge by (rewrite length_spread; lia).
  rewrite get_lookup, lookup_ge_None_2 by lia. simpl.
  rewrite length_spread. split_and!.
  - rewrite !length_app, length_spread, length_replicate. simpl. lia.
  - rewrite lookup_app_r by (rewrite length_spread; lia).
    rewrite lookup_app_r; rewrite length_spread, length_replicate; [|lia].
    by rewrite Nat.sub_diag.
  - intros j Hj. rewrite lookup_app_r by (rewrite length_spread; lia).
    rewrite length_spread, lookup_app_l by (rewrite length_replicate; lia).
    apply lookup_replicate_2. lia.
  - intros j o Hj. rewrite lookup_app_l.
    + by apply lookup_spread_obj.
    + rewrite length_spread. by eapply lookup_lt_Some.
Qed.

Lemma submit_past_end_grows_witness :
  tasks (addTask 1700000002000 stale) =
    [ Obj milk; Hole;
      Obj (Item.mk (lit "call mum") (lit "Low") (lit "Personal") None None) ]
  ∧ length (tasks (addTask 1700000002000 stale)) = 3%nat.
Proof.
  split; [reflexivity|].
  apply (submit_past_end_grows 1700000002000 stale 2).
  - reflexivity.
  - simpl. lia.
  - vm_compute. discriminate.
Defined.

(** ** [deleteTask] on any array *)

Lemma filter_from_not_hole cb (i : Z) (a : list slot) :
  Forall not_hole (filter_from cb i a).
Proof.
  revert i. induction a as [|x a IH]; intros i; simpl; [constructor|].
  destruct x; try destruct (cb _ i); try apply IH;
    (constructor; [done | apply IH]).
Qed.

Lemma deleteTask_dense_sublist_length (index : Z) (s : State) :
  (length (tasks (deleteTask index s)) ≤ length (tasks s))%nat.
Proof. simpl. apply sublist_length, filter_from_sublist. Qed.

(** X5. Whatever the array and the index, the list [deleteTask] stores has
    no holes, is a subsequence of the old one (nothing added, nothing
    reordered) and is no longer than it. *)
Theorem deleteTask_dense_subsequence (index : Z) (s : State) :
  Forall not_hole (tasks (deleteTask index s))
  ∧ tasks (deleteTask index s) `sublist_of` tasks s
  ∧ (length (tasks (deleteTask index s)) ≤ length (tasks s))%nat.
Proof.
  simpl. unfold array_filter. split_and!.
  - apply filter_from_not_hole.
  - apply filter_from_sublist.
  - apply sublist_length, filter_from_sublist.
Qed.

(** ** [addTask] and the other handlers together *)

Lemma not_blank_not_nil (t : jsstring) : trim t ≠ [] → t ≠ [].
Proof. intros Ht ->. by apply Ht. Qed.

(** X6. [addTask] changes the state exactly when the text is not blank. *)
Theorem addTask_changes_iff_not_blank (now : Z) (s : State) :
  addTask now s ≠ s ↔ ¬ blank (task s).
Proof.
  split.
  - intros Hne Hb. by apply Hne, addTask_blank.
  - intros Hb Heq.
    assert (trim (task s) ≠ []) as Ht by by rewrite trim_nil_iff.
    assert (task (addTask now s) = []) as H0.
    { destruct (editingIndex s) as [k|] eqn:He.
      - by rewrite (addTask_update now s k).
      - by rewrite addTask_append. }
    rewrite Heq in H0. by apply (not_blank_not_nil _ Ht).
Qed.

(** X7. Adding a task and then deleting the last index gives back the
    list that was there (on a list without holes). *)
Theorem add_then_delete_last_restores (now : Z) (s : State) :
  Forall not_hole (tasks s) →
  editingIndex s = None →
  trim (task s) ≠ [] →
  tasks (deleteTask (Z.of_nat (length (tasks s))) (addTask now s)) = tasks s.
Proof.
  intros Hd He Ht.
  assert (tasks (addTask now s) = tasks s ++ [Obj (created now s)]) as Ha.
  { rewrite addTask_append by done. simpl. by rewrite spread_dense. }
  rewrite deleteTask_dense.
  - rewrite Ha, Nat2Z.id.
    by rewrite (delete_middle (tasks s) [] _), app_nil_r.
  - rewrite Ha. apply Forall_app_2; [done | by repeat constructor].
  - lia.
Qed.

Lemma add_then_delete_last_restores_witness :
  tasks (deleteTask 2 (addTask 1700000002000 typing)) = tasks typing.
Proof.
  apply (add_then_delete_last_restores 1700000002000 typing).
  - repeat constructor.
  - reflexivity.
  - vm_compute. discriminate.
Defined.

Lemma length_assign (a : list slot) (k : nat) (x : slot) :
  (length a ≤ length (assign a k x))%nat.
Proof.
  unfold assign. case_decide.
  - by rewrite length_insert.
  - rewrite length_app. lia.
Qed.

Lemma length_addTask (now : Z) (s : State) :
  (length (tasks s) ≤ length (tasks (addTask now s)))%nat.
Proof.
  unfold addTask. destruct (truthy (trim (task s))); [|done].
  destruct (editingIndex s) as [k|]; simpl.
  - etransitivity; [|apply length_assign]. by rewrite length_spread.
  - rewrite length_app, length_spread. lia.
Qed.

(** X8. Only the add button makes the list longer and only a delete makes
    it shorter: every other event that returns leaves the length as it
    was, an add never shortens and a delete never lengthens. *)
Theorem only_add_grows_only_delete_shrinks (s s' : State) (e : event) :
  step s e = Done s' →
  ((length (tasks s) < length (tasks s'))%nat → ∃ now, e = PressAdd now)
  ∧ ((length (tasks s') < length (tasks s))%nat → ∃ i, e = PressDelete i).
Proof.
  intros Hstep.
  destruct e as [text|p|c|now|i|i|i|]; simpl in Hstep;
    try (injection Hstep as <-; simpl; split; intros; lia).
  - injection Hstep as <-. split; [by exists now|].
    pose proof (length_addTask now s). lia.
  - injection Hstep as <-. split; [|by exists i].
    pose proof (deleteTask_dense_sublist_length i s). lia.
  - unfold toggleTaskCompletion in Hstep. simpl in Hstep.
    destruct (get (spread (tasks s)) i); [|done].
    injection Hstep as <-. simpl.
    rewrite length_insert, length_spread. split; intros; lia.
  - unfold editTask in Hstep.
    destruct (get (tasks s) i); [|done].
    injection Hstep as <-. simpl. split; intros; lia.
Qed.

Lemma only_add_grows_only_delete_shrinks_witness :
  ((length (tasks typing) < length (tasks (deleteTask 0 typing)))%nat →
   ∃ now, PressDelete 0 = PressAdd now)
  ∧ ((length (tasks (deleteTask 0 typing)) < length (tasks typing))%nat →
     ∃ i, PressDelete 0 = PressDelete i).
Proof.
  apply (only_add_grows_only_delete_shrinks typing (deleteTask 0 typing)).
  reflexivity.
Defined.

(** ** Reachable states *)

Section well_formed.
Implicit Types (a : list slot) (s : State) (o : Item.t).

Lemma well_formed_spread a :
  Forall well_formed_slot a → Forall well_formed_slot (spread a).
Proof.
  intros Ha. unfold spread. apply Forall_fmap.
  eapply Forall_impl; [exact Ha|]. by intros [].
Qed.

Lemma well_formed_assign a (k : nat) (x : slot) :
  Forall well_formed_slot a → well_formed_slot x →
  Forall well_formed_slot (assign a k x).
Proof.
  intros Ha Hx. unfold assign. case_decide.
  - by apply Forall_insert.
  - apply Forall_app_2; [done|]. apply Forall_app_2.
    + by apply Forall_replicate.
    + by repeat constructor.
Qed.

Lemma well_formed_get a (i : Z) o :
  Forall well_formed_slot a → get a i = Some o → well_formed_item o.
Proof.
  intros Ha Hg. apply get_Some in Hg as [_ Hg].
  by apply (Forall_lookup_1 _ _ _ _ Ha Hg).
Qed.

Lemma well_formed_filter cb (i : Z) a :
  Forall well_formed_slot a → Forall well_formed_slot (filter_from cb i a).
Proof.
  intros Ha. apply Forall_lookup. intros j x Hj.
  apply list_elem_of_lookup_2 in Hj.
  apply (sublist_subseteq _ _ (filter_from_sublist cb i a)) in Hj.
  apply list_elem_of_lookup in Hj as [j' Hj'].
  by apply (Forall_lookup_1 _ _ _ _ Ha Hj').
Qed.

Lemma well_formed_overwrite (v : option Item.t) (t p c : jsstring) :
  match v with Some o => well_formed_item o | None => True end →
  trim t ≠ [] → valid_priority p → valid_category c →
  well_formed_item (overwrite v t p c).
Proof.
  intros Hv Ht Hp Hc. destruct v as [o|]; simpl.
  - destruct Hv as (_ & _ & _ & Hid). by split_and!.
  - split_and!; try done. by intros [? [=]].
Qed.

Lemma step_well_formed s s' (e : event) :
  well_formed s → step s e = Done s' → well_formed s'.
Proof.
  intros (Hp & Hc & Ha) Hstep.
  assert (valid_priority (lit "Medium")) as HM by by exists Medium.
  assert (valid_category (lit "Work")) as HW by by exists Work.
  destruct e as [text|p|c|now|i|i|i|]; simpl in Hstep.
  - injection Hstep as <-. by split_and!.
  - injection Hstep as <-. split_and!; try done. by exists p.
  - injection Hstep as <-. split_and!; try done. by exists c.
  - injection Hstep as <-.
    destruct (truthy (trim (task s))) eqn:Ht.
    2:{ unfold addTask. rewrite Ht. by split_and!. }
    apply truthy_true_iff in Ht.
    destruct (editingIndex s) as [k|] eqn:He.
    + rewrite (addTask_update now s k) by done.
      split_and!; try done. simpl.
      apply well_formed_assign; [by apply well_formed_spread|].
      apply well_formed_overwrite; try done.
      destruct (get (tasks s) (Z.of_nat k)) as [o|] eqn:Hg; [|done].
      by eapply well_formed_get.
    + rewrite addTask_append by done.
      split_and!; try done. simpl.
      apply Forall_app_2; [by apply well_formed_spread|].
      repeat constructor; try done; by eexists.
  - injection Hstep as <-. split_and!; try done. simpl.
    by apply well_formed_filter.
  - unfold toggleTaskCompletion in Hstep. simpl in Hstep.
    rewrite get_spread in Hstep.
    destruct (get (tasks s) i) as [o|] eqn:Hg; [|done].
    injection Hstep as <-. split_and!; try done. simpl.
    apply Forall_insert; [by apply well_formed_spread|].
    destruct (well_formed_get _ _ _ Ha Hg) as (? & ? & ? & ?).
    split_and!; try done; by eexists.
  - unfold editTask in Hstep.
    destruct (get (tasks s) i) as [o|] eqn:Hg; [|done].
    injection Hstep as <-.
    destruct (well_formed_get _ _ _ Ha Hg) as (? & ? & ? & ?).
    by split_and!.
  - injection Hstep as <-. by split_and!.
Qed.

Lemma run_well_formed (es : list event) : ∀ s s',
  well_formed s → run s es = Done s' → well_formed s'.
Proof.
  induction es as [|e es IH]; intros s s' Hs Hrun; simpl in Hrun.
  - by injection Hrun as <-.
  - destruct (step s e) as [s1|] eqn:Hstep; [|done].
    apply (IH s1); [|done]. by eapply step_well_formed.
Qed.
End well_formed.

(** X9. In every reachable state, every task in the list has a text that
    is not blank, a priority among High, Medium, Low and a category among
    Work, Personal, Shopping, Other, and has a [completed] whenever it has
    an [id]; the form's priority and category are picker values too. *)
Theorem reachable_well_formed (s : State) :
  reachable s → well_formed s.
Proof.
  intros [es Hrun]. apply (run_well_formed es init); [|done].
  split_and!; [by exists Medium | by exists Work | constructor].
Qed.

Lemma reachable_well_formed_witness : well_formed after_three_adds.
Proof.
  apply (reachable_well_formed after_three_adds).
  exists three_adds. reflexivity.
Defined.

Lemma increasing_clock_unique_ids_witness :
  NoDup (ids (tasks after_three_adds)).
Proof.
  apply (increasing_clock_unique_ids three_adds after_three_adds 0).
  - simpl. lia.
  - reflexivity.
Defined.

(** ** Identifiers are never rewritten *)

Section id_fields.
Implicit Types (a : list slot) (x y : slot).




End id_fields.



(** Writing another [id] into the task being updated is not [ids_kept]. *)
Example restamped_id_not_kept :
  ¬ ids_kept (PressAdd 1700000002000) editing
      (mkState (lit "") (lit "Medium") (lit "Work")
         [ Obj (Item.mk (lit "oat milk") (lit "High") (lit "Shopping")
                  (Some false) (Some (lit "1700000002000")));
           Obj report ]
         None false).
Proof.
  intros [(i & [=] & _)|(extra & Heq & _)].
  destruct extra; simpl in Heq; discriminate.
Qed.
